(** * StudentWatcher: a background-task supervisor over asyncio

    Shallow embedding of [src/abstract_watcher.py].  The watcher keeps a
    running flag and the list of the tasks it spawned; [stop] waits for them
    with [asyncio.wait], hands every finished task to the registrator and
    cancels the others.

    What the event loop does while [stop] is suspended is not in the source:
    it is an explicit argument, a [Scheduling], that says in which state every
    task is when the wait is over and in which order Python iterates the two
    sets [asyncio.wait] returns.

    Scope of the model.  It follows the runs of [stop] in which the
    registrator's methods return, the coroutine that awaits [stop] is not
    itself cancelled while it waits, and a timeout that is set does fire.  On
    the other runs the code raises or stays suspended before it reaches its
    cancellation loop and its two final assignments.  The numbered theorems
    below are stated so that they hold on those runs too: they speak of what
    a returning [stop] has done, or of what no [stop] does. *)

From Stdlib Require Import String.
From Stdlib Require Import List Bool Arith Lia Permutation ZArith.
Import ListNotations.
Local Open Scope string_scope.
Local Open Scope list_scope.

(** An [asyncio.Task] handle.  Tasks are compared by identity; the identity
    of a task is its creation index in the event loop. *)
Definition Task := nat.

Section Watcher.

(** [Value]: what a coroutine returns ([Any]).  [Error]: what a coroutine
    raises, cancellation apart.  [Coroutine]: the argument of
    [start_and_watch].  [Registrator]: the reference to an
    [AbstractRegistrator].  [Duration]: the type of [timeout]. *)
Context {Value Error Coroutine Registrator Duration : Type}.

(** ** Exceptions seen by the caller of a method *)
Inductive Raise : Type :=
| RuntimeError (msg : string)
| ValueError (msg : string)
| InvalidStateError (msg : string)
| CancelledError
| TaskError (e : Error).

(** ** Tasks *)

(** State of a task: [_PENDING], or [_FINISHED] with a result, or [_FINISHED]
    with an exception, or [_CANCELLED]. *)
Inductive TaskState : Type :=
| Unfinished
| Returned (v : Value)
| Failed (e : Error)
| Cancelled.

(** What the caller of [stop] cannot control: the state of every task at the
    moment the wait is over (when the timeout fires or, without a timeout,
    eventually), and the iteration order of a Python set. *)
Record Scheduling : Type := {
  fate : Task -> TaskState;
  iter_order : list Task -> list Task;
  iter_order_perm : forall l, Permutation (iter_order l) l
}.

(** [task.done()] *)
Definition task_done (w : Scheduling) (t : Task) : bool :=
  match fate w t with
  | Unfinished => false
  | _ => true
  end.

(** [task.exception()]: the exception or [None]; raises on a cancelled or an
    unfinished task. *)
Definition task_exception (w : Scheduling) (t : Task) : Raise + option Error :=
  match fate w t with
  | Cancelled => inl CancelledError
  | Unfinished => inl (InvalidStateError "Exception is not set.")
  | Failed e => inr (Some e)
  | Returned _ => inr None
  end.

(** [task.result()] *)
Definition task_result (w : Scheduling) (t : Task) : Raise + Value :=
  match fate w t with
  | Cancelled => inl CancelledError
  | Unfinished => inl (InvalidStateError "Result is not set.")
  | Failed e => inl (TaskError e)
  | Returned v => inr v
  end.

(** ** Calls the watcher makes on its collaborators

    A registrator call carries the task [__register_task] was given, so that
    calls can be counted per task. *)
Inductive Event : Type :=
| RegisterValue (t : Task) (v : Value)
| RegisterError (t : Task) (e : Error)
| CancelRequest (t : Task).

Definition event_task (ev : Event) : Task :=
  match ev with
  | RegisterValue t _ => t
  | RegisterError t _ => t
  | CancelRequest t => t
  end.

Definition is_register (ev : Event) : bool :=
  match ev with
  | CancelRequest _ => false
  | _ => true
  end.

Definition is_cancel (ev : Event) : bool := negb (is_register ev).

(** The calls of a trace that concern task [t]. *)
Definition about (t : Task) (ev : Event) : bool := Nat.eqb (event_task ev) t.

Definition calls_about (t : Task) (tr : list Event) : list Event :=
  filter (about t) tr.

Definition register_count (tr : list Event) : nat :=
  length (filter is_register tr).

Definition cancel_count (tr : list Event) : nat :=
  length (filter is_cancel tr).

(** ** asyncio.wait(fs, timeout=...) with [return_when=ALL_COMPLETED] *)
Inductive WaitResult : Type :=
| WaitRaises (f : Raise)
| WaitBlocks
| WaitReturns (done pending : list Task).

Definition wait (w : Scheduling) (fs : list Task) (timeout : option Duration)
  : WaitResult :=
  match fs with
  | [] => WaitRaises (ValueError "Set of Tasks/Futures is empty.")
  | _ :: _ =>
      let fs := nodup Nat.eq_dec fs in
      let done := filter (task_done w) fs in
      let pending := filter (fun t => negb (task_done w t)) fs in
      match timeout, pending with
      | None, _ :: _ => WaitBlocks
      | _, _ => WaitReturns (iter_order w done) (iter_order w pending)
      end
  end.

(** ** The watcher *)
Record StudentWatcher : Type := {
  registrator : Registrator;
  timeout : option Duration;
  is_running : bool;
  tasks : list Task
}.

(** [StudentWatcher.__init__] *)
Definition init (r : Registrator) (to : option Duration) : StudentWatcher :=
  {| registrator := r; timeout := to; is_running := false; tasks := [] |}.

Inductive Status : Type :=
| Returns
| Raises (f : Raise)
| Blocks.

(** How a method call ends, the object it leaves and the calls it made. *)
Record Outcome (S : Type) : Type := {
  status : Status;
  final : S;
  calls : list Event
}.
Arguments status {S} o.
Arguments final {S} o.
Arguments calls {S} o.
Arguments Build_Outcome {S} status final calls.

(** The two conditions the watcher signals itself: the [RuntimeError]s of
    [start], and of [stop] and [start_and_watch]. *)
Definition NotRunning : Status :=
  Raises (RuntimeError "Watcher is not running").

Definition AlreadyRunning : Status :=
  Raises (RuntimeError "Watcher is already running").

(** [StudentWatcher.__register_task].  The source calls [task.exception()]
    twice; the state of a finished task no longer changes, so the second call
    returns what the first did. *)
Definition register_task (w : Scheduling) (t : Task) : Raise + Event :=
  match task_exception w t with
  | inl f => inl f
  | inr (Some e) => inr (RegisterError t e)
  | inr None =>
      match task_result w t with
      | inl f => inl f
      | inr v => inr (RegisterValue t v)
      end
  end.

(** [for task in done: self.__register_task(task)]: the calls made, and the
    exception that ended the loop early, if any. *)
Fixpoint register_all (w : Scheduling) (done : list Task)
  : list Event * option Raise :=
  match done with
  | [] => ([], None)
  | t :: rest =>
      match register_task w t with
      | inl f => ([], Some f)
      | inr ev =>
          let (evs, r) := register_all w rest in (ev :: evs, r)
      end
  end.

(** [StudentWatcher.start] *)
Definition start (s : StudentWatcher) : Outcome StudentWatcher :=
  if is_running s then
    {| status := AlreadyRunning; final := s; calls := [] |}
  else
    {| status := Returns;
       final := {| registrator := registrator s; timeout := timeout s;
                   is_running := true; tasks := tasks s |};
       calls := [] |}.

(** [StudentWatcher.stop] *)
Definition stop (w : Scheduling) (s : StudentWatcher)
  : Outcome StudentWatcher :=
  if negb (is_running s) then
    {| status := NotRunning; final := s; calls := [] |}
  else
    match wait w (tasks s) (timeout s) with
    | WaitRaises f => {| status := Raises f; final := s; calls := [] |}
    | WaitBlocks => {| status := Blocks; final := s; calls := [] |}
    | WaitReturns done pending =>
        match register_all w done with
        | (evs, Some f) => {| status := Raises f; final := s; calls := evs |}
        | (evs, None) =>
            {| status := Returns;
               final := {| registrator := registrator s; timeout := timeout s;
                           is_running := false; tasks := [] |};
               calls := evs ++ map CancelRequest pending |}
        end
    end.

(** The event loop, as far as the watcher uses it: the coroutines wrapped in
    tasks so far.  [asyncio.create_task] returns a new task each time (a
    loop is running whenever the watcher is used). *)
Definition EventLoop := list Coroutine.

Definition create_task (coro : Coroutine) (loop : EventLoop)
  : Task * EventLoop :=
  (length loop, loop ++ [coro]).

Record Sys : Type := {
  watcher : StudentWatcher;
  loop : EventLoop
}.

(** [StudentWatcher.start_and_watch] *)
Definition start_and_watch (coro : Coroutine) (s : Sys) : Outcome Sys :=
  if negb (is_running (watcher s)) then
    {| status := NotRunning; final := s; calls := [] |}
  else
    let (task, loop') := create_task coro (loop s) in
    {| status := Returns;
       final := {| watcher :=
                     {| registrator := registrator (watcher s);
                        timeout := timeout (watcher s);
                        is_running := is_running (watcher s);
                        tasks := tasks (watcher s) ++ [task] |};
                   loop := loop' |};
       calls := [] |}.

(** ** Sequences of calls on one watcher *)
Inductive Call : Type :=
| CallStart
| CallSpawn (coro : Coroutine)
| CallStop (w : Scheduling).

Definition lift (s : Sys) (o : Outcome StudentWatcher) : Outcome Sys :=
  {| status := status o;
     final := {| watcher := final o; loop := loop s |};
     calls := calls o |}.

(** One call of the public interface.  The calls are issued one after the
    other, never while [stop] is suspended. *)
Definition step (c : Call) (s : Sys) : Outcome Sys :=
  match c with
  | CallStart => lift s (start (watcher s))
  | CallSpawn coro => start_and_watch coro s
  | CallStop w => lift s (stop w (watcher s))
  end.

(** The state after a sequence of calls.  A call that raises leaves the
    state it raised in, and the caller goes on from there. *)
Fixpoint run (cs : list Call) (s : Sys) : Sys :=
  match cs with
  | [] => s
  | c :: rest => run rest (final (step c s))
  end.

(** How each call of a sequence ends. *)
Fixpoint statuses (cs : list Call) (s : Sys) : list Status :=
  match cs with
  | [] => []
  | c :: rest => status (step c s) :: statuses rest (final (step c s))
  end.

(** What the caller of a wedged watcher sees: [start] is refused, [stop]
    does not return; [start_and_watch] is still accepted. *)
Definition refused (c : Call) (st : Status) : Prop :=
  match c with
  | CallStart => st = AlreadyRunning
  | CallSpawn _ => st = Returns
  | CallStop _ => st <> Returns
  end.

(** A freshly constructed watcher, in an event loop that may already hold
    tasks of its own. *)
Definition initial (r : Registrator) (to : option Duration) (l : EventLoop)
  : Sys :=
  {| watcher := init r to; loop := l |}.

Definition reachable (s : Sys) : Prop :=
  exists r to l cs, s = run cs (initial r to l).

(** The invariant of the call sequences: idle means no task is held; the
    tasks held are distinct and were all created in this event loop. *)
Definition consistent (s : Sys) : Prop :=
  (is_running (watcher s) = false -> tasks (watcher s) = []) /\
  NoDup (tasks (watcher s)) /\
  Forall (fun t => t < length (loop s)) (tasks (watcher s)).

(** The registrator calls of a loop over [ts] that is not cut short: one for
    each task [__register_task] accepts. *)
Definition registrations (w : Scheduling) (ts : list Task) : list Event :=
  flat_map (fun t => match register_task w t with
                     | inr ev => [ev]
                     | inl _ => []
                     end) ts.

(** What a call says about task [t]: a [stop] call finds it cancelled, the
    other calls say nothing. *)
Definition finds_cancelled (t : Task) (c : Call) : Prop :=
  match c with
  | CallStop w => fate w t = Cancelled
  | _ => True
  end.

(** What an event says of its task. *)
Definition truthful (w : Scheduling) (ev : Event) : Prop :=
  match ev with
  | RegisterValue t v => fate w t = Returned v
  | RegisterError t e => fate w t = Failed e
  | CancelRequest t => fate w t = Unfinished
  end.

End Watcher.

Arguments Outcome {Value Error} S.
Arguments Build_Outcome {Value Error S} status final calls.
Arguments status {Value Error S} o.
Arguments final {Value Error S} o.
Arguments calls {Value Error S} o.

(** ** A concrete instance, for evaluating the model

    Values are integers, errors and coroutines are named by strings, the
    registrator is a number and the timeout counts seconds. *)

Definition reversed (f : Task -> @TaskState Z string) : @Scheduling Z string :=
  {| fate := f;
     iter_order := @rev Task;
     iter_order_perm := fun l => Permutation_sym (Permutation_rev l) |}.

Definition in_order (f : Task -> @TaskState Z string) : @Scheduling Z string :=
  {| fate := f;
     iter_order := fun l => l;
     iter_order_perm := fun l => Permutation_refl l |}.

(** Task 0 returns 7, task 1 raises, task 2 is still running when the wait
    is over, every other task ended cancelled. *)
Definition mixed_fate (t : Task) : @TaskState Z string :=
  match t with
  | 0 => Returned 7%Z
  | 1 => Failed "boom"
  | 2 => Unfinished
  | _ => Cancelled
  end.

Definition all_cancelled (t : Task) : @TaskState Z string := Cancelled.

Definition fresh : @Sys string nat nat := initial 1 (Some 5) [].

(** [start()], then three [start_and_watch] calls. *)
Definition three_spawned : @Sys string nat nat :=
  run (Value := Z) (Error := string)
      [CallStart; CallSpawn "a"; CallSpawn "b"; CallSpawn "c"] fresh.

(** [start()], then one [start_and_watch] call. *)
Definition one_spawned : @Sys string nat nat :=
  run (Value := Z) (Error := string) [CallStart; CallSpawn "a"] fresh.

(** [start()] alone. *)
Definition just_started : @Sys string nat nat :=
  run (Value := Z) (Error := string) [CallStart] fresh.

(** The same three tasks in a watcher constructed without a timeout. *)
Definition three_spawned_no_timeout : @Sys string nat nat :=
  run (Value := Z) (Error := string)
      [CallStart; CallSpawn "a"; CallSpawn "b"; CallSpawn "c"]
      (initial 1 None []).

(** Task 0 returns 7, every other task raises. *)
Definition all_finished (t : Task) : @TaskState Z string :=
  match t with
  | 0 => Returned 7%Z
  | _ => Failed "boom"
  end.

(** Task 0 ended cancelled, task 1 returns 3, the others are still running
    when the wait is over. *)
Definition first_cancelled (t : Task) : @TaskState Z string :=
  match t with
  | 0 => Cancelled
  | 1 => Returned 3%Z
  | _ => Unfinished
  end.

(** An idle watcher whose [tasks] attribute was left non-empty. *)
Definition stale : @StudentWatcher nat nat :=
  {| registrator := 1; timeout := None; is_running := false; tasks := [4] |}.

(** * Properties *)

Section Properties.

Context {Value Error Coroutine Registrator Duration : Type}.

Local Abbreviation Scheduling := (@Scheduling Value Error).
Local Abbreviation StudentWatcher := (@StudentWatcher Registrator Duration).
Local Abbreviation Sys := (@Sys Coroutine Registrator Duration).
Local Abbreviation Event := (@Event Value Error).
Local Abbreviation Call := (@Call Value Error Coroutine).
Local Abbreviation start := (@start Value Error Registrator Duration).
Local Abbreviation start_and_watch :=
  (@start_and_watch Value Error Coroutine Registrator Duration).
Local Abbreviation step := (@step Value Error Coroutine Registrator Duration).
Local Abbreviation run := (@run Value Error Coroutine Registrator Duration).
Local Abbreviation reachable :=
  (@reachable Value Error Coroutine Registrator Duration).
Local Abbreviation CallStart := (@CallStart Value Error Coroutine).
Local Abbreviation CallSpawn := (@CallSpawn Value Error Coroutine).

Implicit Types (w : Scheduling) (s : StudentWatcher) (t : Task).

(** ** What [asyncio.wait] returns *)

Lemma wait_returns w (fs : list Task) (to : option Duration) done pending :
  wait w fs to = WaitReturns done pending ->
  fs <> [] /\
  Permutation done (filter (task_done w) (nodup Nat.eq_dec fs)) /\
  Permutation pending
    (filter (fun t => negb (task_done w t)) (nodup Nat.eq_dec fs)).
Proof.
  unfold wait. destruct fs as [|t0 fs']; [discriminate|].
  set (l := nodup Nat.eq_dec (t0 :: fs')).
  intros H. split; [discriminate|].
  destruct to as [d|];
    [|destruct (filter (fun t => negb (task_done w t)) l) eqn:Ep;
      [|discriminate]];
    injection H as <- <-; try rewrite <- Ep;
    split; apply iter_order_perm.
Qed.

Lemma wait_partition w (fs : list Task) (to : option Duration) done pending :
  wait w fs to = WaitReturns done pending ->
  length done + length pending = length (nodup Nat.eq_dec fs).
Proof.
  intros H. apply wait_returns in H as (_ & Hd & Hp).
  rewrite (Permutation_length Hd), (Permutation_length Hp).
  apply filter_length.
Qed.

Lemma wait_done_nodup w (fs : list Task) (to : option Duration) done pending :
  wait w fs to = WaitReturns done pending ->
  NoDup done /\ NoDup pending.
Proof.
  intros H. apply wait_returns in H as (_ & Hd & Hp).
  split.
  - apply (Permutation_NoDup (Permutation_sym Hd)), NoDup_filter, NoDup_nodup.
  - apply (Permutation_NoDup (Permutation_sym Hp)), NoDup_filter, NoDup_nodup.
Qed.

Lemma wait_done_iff w (fs : list Task) (to : option Duration) done pending t :
  wait w fs to = WaitReturns done pending ->
  (In t done <-> In t fs /\ task_done w t = true) /\
  (In t pending <-> In t fs /\ task_done w t = false).
Proof.
  intros H. apply wait_returns in H as (_ & Hd & Hp).
  split.
  - rewrite (Permutation_in' (eq_refl t) Hd), filter_In, nodup_In. tauto.
  - rewrite (Permutation_in' (eq_refl t) Hp), filter_In, nodup_In,
      negb_true_iff. tauto.
Qed.

(** ** What [__register_task] and the loop over [done] do *)

Lemma register_task_inr w t ev :
  register_task w t = inr ev ->
  event_task ev = t /\ is_register ev = true /\
  match fate w t with
  | Returned v => ev = RegisterValue t v
  | Failed e => ev = RegisterError t e
  | _ => False
  end.
Proof.
  unfold register_task, task_exception, task_result.
  destruct (fate w t); intros H; inversion H; subst; simpl; auto.
Qed.

Lemma register_all_ok w done evs :
  register_all w done = (evs, None) ->
  Forall2 (fun t ev => register_task w t = inr ev) done evs.
Proof.
  revert evs. induction done as [|t rest IH]; simpl; intros evs H.
  - injection H as <-. constructor.
  - destruct (register_task w t) as [f|ev] eqn:Et; [discriminate|].
    destruct (register_all w rest) as [evs' r].
    injection H as <- ->. constructor; auto.
Qed.

Lemma registered_are_registers w done evs :
  Forall2 (fun t ev => register_task w t = inr ev) done evs ->
  Forall (fun ev => is_register ev = true) evs /\ length evs = length done.
Proof.
  induction 1 as [|t ev done evs Ht _ [IHa IHb]]; simpl; [now split|].
  apply register_task_inr in Ht as (_ & Hr & _).
  split; [constructor; assumption | now rewrite IHb].
Qed.

(** ** How a successful [stop] came about *)

Lemma stop_returns w s :
  status (stop w s) = Returns ->
  is_running s = true /\
  exists done pending evs,
    wait w (tasks s) (timeout s) = WaitReturns done pending /\
    register_all w done = (evs, None) /\
    final (stop w s) =
      {| registrator := registrator s; timeout := timeout s;
         is_running := false; tasks := [] |} /\
    calls (stop w s) = evs ++ map CancelRequest pending.
Proof.
  unfold stop. destruct (is_running s); simpl; [|discriminate].
  destruct (wait w (tasks s) (timeout s)) as [f| |done pending];
    simpl; try discriminate.
  destruct (register_all w done) as [evs [f|]] eqn:Er; simpl;
    [discriminate|].
  intros _. split; [reflexivity|].
  exists done, pending, evs. auto.
Qed.

(** ** The invariant of the call sequences *)

Lemma stop_raises_or_blocks w s :
  status (stop w s) <> Returns -> final (stop w s) = s.
Proof.
  unfold stop. destruct (is_running s); simpl; [|reflexivity].
  destruct (wait w (tasks s) (timeout s)) as [f| |done pending];
    simpl; try reflexivity.
  destruct (register_all w done) as [evs [f|]]; simpl; [reflexivity|].
  intros H. now elim H.
Qed.

Lemma step_consistent (c : Call) (s : Sys) :
  consistent s -> consistent (final (step c s)).
Proof.
  intros Hs. destruct c as [|coro|w]; simpl.
  - unfold start. destruct (is_running (watcher s)) eqn:Er; simpl.
    + destruct s as [wa lp]. exact Hs.
    + destruct Hs as (Hidle & Hnd & Hlt).
      split; [|split]; simpl; auto; discriminate.
  - unfold start_and_watch.
    destruct (is_running (watcher s)) eqn:Er; simpl; [|exact Hs].
    destruct Hs as (Hidle & Hnd & Hlt). split; [|split]; simpl.
    + discriminate.
    + apply NoDup_app; [assumption | repeat constructor; intros [] |].
      intros x Hx [<-|[]]. rewrite Forall_forall in Hlt.
      specialize (Hlt _ Hx). lia.
    + rewrite length_app. simpl. apply Forall_app. split.
      * eapply Forall_impl; [|exact Hlt]. simpl. intros; lia.
      * repeat constructor. lia.
  - destruct (status (stop w (watcher s))) eqn:Es.
    + apply stop_returns in Es as (_ & d & p & evs & _ & _ & -> & _).
      split; [|split]; simpl; auto; constructor.
    + rewrite stop_raises_or_blocks by (rewrite Es; discriminate).
      destruct s as [wa lp]. exact Hs.
    + rewrite stop_raises_or_blocks by (rewrite Es; discriminate).
      destruct s as [wa lp]. exact Hs.
Qed.

Lemma run_consistent (cs : list Call) (s : Sys) :
  consistent s -> consistent (run cs s).
Proof.
  revert s. induction cs as [|c rest IH]; simpl; intros s Hs; [assumption|].
  apply IH, step_consistent, Hs.
Qed.

Lemma reachable_consistent (s : Sys) :
  reachable s -> consistent s.
Proof.
  intros (r & to & l & cs & ->). apply run_consistent.
  split; [|split]; simpl; auto; constructor.
Qed.

(** ** Calls about one task in the trace of [stop] *)

Lemma calls_about_not_registered w done evs t :
  Forall2 (fun t ev => register_task w t = inr ev) done evs ->
  ~ In t done -> calls_about t evs = [].
Proof.
  unfold calls_about.
  induction 1 as [|t' ev' done evs Ht' _ IH]; intros Hnot; [reflexivity|].
  simpl. unfold about at 1. apply register_task_inr in Ht' as (-> & _).
  destruct (Nat.eqb_spec t' t) as [->|_];
    [elim Hnot; now left | apply IH; intros Hc; apply Hnot; now right].
Qed.

Lemma calls_about_registered w done evs t :
  Forall2 (fun t ev => register_task w t = inr ev) done evs ->
  NoDup done -> In t done ->
  exists ev, register_task w t = inr ev /\ calls_about t evs = [ev].
Proof.
  induction 1 as [|t' ev' done evs Ht' Hrest IH]; intros Hnd Hin;
    [destruct Hin|].
  inversion Hnd as [|? ? Hnot Hnd']; subst.
  pose proof (register_task_inr _ _ _ Ht') as (Het & _).
  unfold calls_about. simpl. unfold about at 1. rewrite Het.
  destruct Hin as [->|Hin].
  - rewrite Nat.eqb_refl. exists ev'. split; [assumption|]. f_equal.
    exact (calls_about_not_registered _ _ _ _ Hrest Hnot).
  - destruct (Nat.eqb_spec t' t) as [->|_]; [contradiction|]. now apply IH.
Qed.

Lemma calls_about_not_cancelled (pending : list Task) t :
  ~ In t pending ->
  calls_about t (map (@CancelRequest Value Error) pending) = [].
Proof.
  unfold calls_about. induction pending as [|t' rest IH]; intros Hnot;
    [reflexivity|].
  simpl. unfold about at 1. simpl.
  destruct (Nat.eqb_spec t' t) as [->|_];
    [elim Hnot; now left | apply IH; intros Hc; apply Hnot; now right].
Qed.

Lemma calls_about_cancelled (pending : list Task) t :
  NoDup pending -> In t pending ->
  calls_about t (map (@CancelRequest Value Error) pending) = [CancelRequest t].
Proof.
  induction 1 as [|t' rest Hnot Hnd IH]; intros Hin; [destruct Hin|].
  unfold calls_about. simpl. unfold about at 1. simpl.
  destruct Hin as [->|Hin].
  - rewrite Nat.eqb_refl. f_equal. now apply calls_about_not_cancelled.
  - destruct (Nat.eqb_spec t' t) as [->|_]; [contradiction|]. now apply IH.
Qed.

Lemma calls_about_app t (tr1 tr2 : list Event) :
  calls_about t (tr1 ++ tr2) = calls_about t tr1 ++ calls_about t tr2.
Proof. apply filter_app. Qed.

(** ** Counting the calls of a trace *)

Lemma count_registered (evs : list Event) :
  Forall (fun ev => is_register ev = true) evs ->
  register_count evs = length evs /\ cancel_count evs = 0.
Proof.
  unfold register_count, cancel_count, is_cancel.
  induction 1 as [|ev evs Hev _ [IHr IHc]]; simpl; [now split|].
  rewrite Hev. simpl. now rewrite IHr, IHc.
Qed.

Lemma count_cancelled (pending : list Task) :
  register_count (map (@CancelRequest Value Error) pending) = 0 /\
  cancel_count (map (@CancelRequest Value Error) pending) = length pending.
Proof.
  unfold register_count, cancel_count, is_cancel.
  induction pending as [|t rest [IHr IHc]]; simpl; [now split|].
  now rewrite IHr, IHc.
Qed.

Lemma count_app (tr1 tr2 : list Event) :
  register_count (tr1 ++ tr2) = register_count tr1 + register_count tr2 /\
  cancel_count (tr1 ++ tr2) = cancel_count tr1 + cancel_count tr2.
Proof.
  unfold register_count, cancel_count.
  now rewrite !filter_app, !length_app.
Qed.

(** ** Spawning in a running watcher *)

Lemma spawn_all_running (coros : list Coroutine) (s : Sys) :
  is_running (watcher s) = true ->
  is_running (watcher (run (map CallSpawn coros) s))
    = true /\
  length (tasks (watcher (run (map CallSpawn coros) s)))
    = length (tasks (watcher s)) + length coros.
Proof.
  revert s. induction coros as [|c rest IH]; intros s Hr; simpl.
  - split; [assumption | lia].
  - assert (Hs : final (start_and_watch c s)
                 = {| watcher :=
                        {| registrator := registrator (watcher s);
                           timeout := timeout (watcher s);
                           is_running := true;
                           tasks := tasks (watcher s) ++ [length (loop s)] |};
                      loop := loop s ++ [c] |}).
    { unfold start_and_watch. rewrite Hr. reflexivity. }
    rewrite Hs.
    match goal with
    | |- context [run _ ?s'] => destruct (IH s' eq_refl) as [IHa IHb]
    end.
    split; [exact IHa|]. rewrite IHb. simpl. rewrite length_app. simpl. lia.
Qed.

Lemma stop_trace_split w s :
  status (stop w s) = Returns ->
  exists regs cancels,
    calls (stop w s) = regs ++ cancels /\
    Forall (fun ev => is_register ev = true) regs /\
    Forall (fun ev => is_cancel ev = true) cancels.
Proof.
  intros H. apply stop_returns in H as (_ & d & p & evs & _ & Hr & _ & ->).
  exists evs, (map CancelRequest p). split; [reflexivity|]. split.
  - apply register_all_ok, registered_are_registers in Hr. apply Hr.
  - apply Forall_forall. intros ev Hev. apply in_map_iff in Hev as (t & <- & _).
    reflexivity.
Qed.

(** [asyncio.wait] refuses an empty list, and [stop] lets the error
    through. *)
Lemma stop_of_no_task w s :
  is_running s = true -> tasks s = [] ->
  stop w s =
    {| status := Raises (ValueError "Set of Tasks/Futures is empty.");
       final := s; calls := [] |}.
Proof.
  intros Hr He. unfold stop. now rewrite Hr, He.
Qed.

(** ** The claims *)

(** C1: during a successful [stop], a handle of [tasks] that finished with a
    value yields exactly one call, [register_value] with that value; one that
    finished by raising yields exactly one call, [register_error] with that
    exception; one that is still pending when the wait returns gets a
    cancellation request and no registrator call.  (No handle of a successful
    [stop] ended cancelled.) *)
Theorem stop_registers_finished_cancels_pending w s t :
  status (stop w s) = Returns ->
  In t (tasks s) ->
  match fate w t with
  | Returned v => calls_about t (calls (stop w s)) = [RegisterValue t v]
  | Failed e => calls_about t (calls (stop w s)) = [RegisterError t e]
  | Unfinished => calls_about t (calls (stop w s)) = [CancelRequest t]
  | Cancelled => False
  end.
Proof.
  intros H Hin.
  apply stop_returns in H as (_ & d & p & evs & Hw & Hr & _ & ->).
  apply register_all_ok in Hr.
  destruct (wait_done_nodup _ _ _ _ _ Hw) as [Hnd Hnp].
  destruct (wait_done_iff _ _ _ _ _ t Hw) as [Hd Hp].
  rewrite calls_about_app.
  destruct (task_done w t) eqn:Edone.
  - assert (Hind : In t d) by (apply Hd; auto).
    assert (Hnotp : ~ In t p) by (intros Hc; apply Hp in Hc as [_ Hc];
                                  discriminate).
    rewrite (calls_about_not_cancelled _ _ Hnotp), app_nil_r.
    destruct (calls_about_registered _ _ _ _ Hr Hnd Hind) as (ev & Hev & ->).
    apply register_task_inr in Hev as (_ & _ & Hev).
    destruct (fate w t); try contradiction; now subst.
  - assert (Hinp : In t p) by (apply Hp; auto).
    assert (Hnotd : ~ In t d) by (intros Hc; apply Hd in Hc as [_ Hc];
                                  congruence).
    rewrite (calls_about_not_registered _ _ _ _ Hr Hnotd).
    rewrite (calls_about_cancelled _ _ Hnp Hinp).
    unfold task_done in Edone. destruct (fate w t); try discriminate.
    reflexivity.
Qed.

(** C2: a successful [stop] of a running watcher, whatever its tasks, leaves
    [tasks] empty and the watcher idle, and the next [start] succeeds. *)
Theorem stop_returns_to_idle w s :
  is_running s = true ->
  status (stop w s) = Returns ->
  tasks (final (stop w s)) = [] /\
  is_running (final (stop w s)) = false /\
  status (start (final (stop w s)))
    = Returns.
Proof.
  intros _ H. apply stop_returns in H as (_ & d & p & evs & _ & _ & -> & _).
  repeat split.
Qed.

(** X14: in a cycle [start], any number of [start_and_watch] calls, [stop],
    begun in a reachable idle state, when [stop] returns its registrator
    calls and its cancellation requests add up to the number of handles
    spawned. *)
Theorem cycle_accounts_for_every_handle (s0 : Sys) (coros : list Coroutine) w :
  reachable s0 ->
  is_running (watcher s0) = false ->
  status (stop w (watcher (run (CallStart :: map CallSpawn coros) s0)))
    = Returns ->
  register_count
    (calls (stop w (watcher (run (CallStart :: map CallSpawn coros) s0)))) +
  cancel_count
    (calls (stop w (watcher (run (CallStart :: map CallSpawn coros) s0))))
  = length coros.
Proof.
  intros Hreach Hidle H.
  pose proof (reachable_consistent _ Hreach) as (Hempty & _).
  specialize (Hempty Hidle).
  set (s1 := run (CallStart :: map CallSpawn coros) s0) in *.
  assert (Hc1 : consistent s1)
    by (apply run_consistent, reachable_consistent, Hreach).
  destruct Hc1 as (_ & Hnd & _).
  assert (Hlen : length (tasks (watcher s1)) = length coros).
  { subst s1. simpl. unfold start. rewrite Hidle. simpl.
    match goal with
    | |- context [run _ ?s'] =>
        destruct (spawn_all_running coros s' eq_refl) as [_ ->]
    end.
    simpl. now rewrite Hempty. }
  apply stop_returns in H as (_ & d & p & evs & Hw & Hr & _ & ->).
  apply wait_partition in Hw. rewrite (nodup_fixed_point _ Hnd) in Hw.
  apply register_all_ok, registered_are_registers in Hr as [Hreg Hl].
  destruct (count_app evs (map CancelRequest p)) as [-> ->].
  destruct (count_registered _ Hreg) as [-> ->].
  destruct (count_cancelled p) as [-> ->].
  unfold Task in *. lia.
Qed.

(** C5, as the code has it: a successful [start] takes the watcher from idle
    to running and leaves [tasks] as it was; in a state reached through
    [start], [start_and_watch] and [stop] alone, [tasks] is empty right
    after it. *)
Theorem start_enters_running_keeps_tasks s :
  is_running s = false ->
  status (start s) = Returns /\
  is_running (final (start s)) = true /\
  tasks (final (start s)) = tasks s /\
  (forall l : list Coroutine,
      reachable
                {| watcher := s; loop := l |} ->
      tasks (final (start s)) = []).
Proof.
  intros Hidle. unfold start. rewrite Hidle. simpl.
  repeat split. intros l Hr.
  apply reachable_consistent in Hr as (Hempty & _). now apply Hempty.
Qed.

(** C6: on an idle watcher [stop] and [start_and_watch] raise the
    not-running error and leave everything as it was: the flag, [tasks], and
    no task is created. *)
Theorem idle_rejects_stop_and_spawn (s : Sys) w (coro : Coroutine) :
  is_running (watcher s) = false ->
  stop w (watcher s) =
    {| status := NotRunning; final := watcher s; calls := [] |} /\
  start_and_watch coro s =
    {| status := NotRunning; final := s; calls := [] |}.
Proof.
  intros Hidle. unfold stop, start_and_watch. rewrite Hidle. now split.
Qed.

(** C7: on a running watcher [start] raises the already-running error and
    leaves the watcher as it was. *)
Theorem running_rejects_start s :
  is_running s = true ->
  start s =
    {| status := AlreadyRunning; final := s; calls := [] |}.
Proof.
  intros Hr. unfold start. now rewrite Hr.
Qed.

(** X15: in every state reached through [start], [start_and_watch] and
    [stop], [tasks] is non-empty only while the watcher runs. *)
Theorem tasks_only_while_running (s : Sys) :
  reachable s ->
  tasks (watcher s) <> [] -> is_running (watcher s) = true.
Proof.
  intros Hreach Hne.
  apply reachable_consistent in Hreach as (Hempty & _).
  destruct (is_running (watcher s)); [reflexivity|].
  now elim Hne; apply Hempty.
Qed.

(** C9: no call of [start], [start_and_watch] or [stop], successful or not,
    and no sequence of such calls, changes [registrator] or [timeout]. *)
Theorem registrator_and_timeout_are_fixed (s : Sys) :
  (forall c : Call,
      registrator (watcher (final (step c s))) = registrator (watcher s) /\
      timeout (watcher (final (step c s))) = timeout (watcher s)) /\
  (forall cs : list Call,
      registrator (watcher (run cs s)) = registrator (watcher s) /\
      timeout (watcher (run cs s)) = timeout (watcher s)).
Proof.
  assert (Hstep : forall (c : Call) (s : Sys),
             registrator (watcher (final (step c s))) = registrator (watcher s)
             /\ timeout (watcher (final (step c s))) = timeout (watcher s)).
  { intros c s'. destruct c as [|coro|w]; simpl.
    - unfold start. destruct (is_running (watcher s')); now split.
    - unfold start_and_watch. destruct (is_running (watcher s')); now split.
    - unfold stop. destruct (is_running (watcher s')); simpl; [|now split].
      destruct (wait w _ _) as [f| |d p]; simpl; try now split.
      destruct (register_all w d) as [evs [f|]]; now split. }
  split; [intros c; apply Hstep|].
  intros cs. revert s. induction cs as [|c rest IH]; intros s; simpl;
    [now split|].
  destruct (IH (final (step c s))) as [-> ->]. apply Hstep.
Qed.

(** C10: in the trace of a successful [stop] every registrator call comes
    before every cancellation request. *)
Theorem stop_registers_before_cancelling w s (i j : nat) (ev ev' : Event) :
  status (stop w s) = Returns ->
  nth_error (calls (stop w s)) i = Some ev -> is_register ev = true ->
  nth_error (calls (stop w s)) j = Some ev' -> is_cancel ev' = true ->
  i < j.
Proof.
  intros H Hi Hreg Hj Hcan.
  apply stop_trace_split in H as (regs & cancels & Heq & Hr & Hc).
  rewrite Heq in Hi, Hj.
  rewrite Forall_forall in Hr, Hc.
  assert (Hilt : i < length regs).
  { destruct (Nat.lt_ge_cases i (length regs)) as [|Hge]; [assumption|].
    rewrite nth_error_app2 in Hi by assumption.
    apply nth_error_In, Hc in Hi. unfold is_cancel in Hi.
    rewrite Hreg in Hi. discriminate. }
  assert (Hjge : length regs <= j).
  { destruct (Nat.lt_ge_cases j (length regs)) as [Hlt|]; [|assumption].
    rewrite nth_error_app1 in Hj by assumption.
    apply nth_error_In, Hr in Hj. unfold is_cancel in Hcan.
    rewrite Hj in Hcan. discriminate. }
  lia.
Qed.

End Properties.

(** * The claims on concrete runs *)

Lemma fresh_reachable : reachable (Value := Z) (Error := string) fresh.
Proof. exists 1, (Some 5), [], []. reflexivity. Defined.

Lemma three_spawned_reachable :
  reachable (Value := Z) (Error := string) three_spawned.
Proof.
  exists 1, (Some 5), [],
    [CallStart; CallSpawn "a"; CallSpawn "b"; CallSpawn "c"].
  reflexivity.
Defined.

(** C1 at the three tasks of [three_spawned]: one value, one error, one
    cancellation. *)
Lemma stop_registers_finished_cancels_pending_witness :
  calls_about 0 (calls (stop (reversed mixed_fate) (watcher three_spawned)))
    = [RegisterValue 0 7%Z] /\
  calls_about 1 (calls (stop (reversed mixed_fate) (watcher three_spawned)))
    = [RegisterError 1 "boom"] /\
  calls_about 2 (calls (stop (reversed mixed_fate) (watcher three_spawned)))
    = [CancelRequest 2].
Proof.
  split; [|split].
  - apply (stop_registers_finished_cancels_pending
             (reversed mixed_fate) (watcher three_spawned) 0);
      [reflexivity | simpl; auto].
  - apply (stop_registers_finished_cancels_pending
             (reversed mixed_fate) (watcher three_spawned) 1);
      [reflexivity | simpl; auto].
  - apply (stop_registers_finished_cancels_pending
             (reversed mixed_fate) (watcher three_spawned) 2);
      [reflexivity | simpl; auto].
Defined.

Lemma stop_returns_to_idle_witness :
  is_running (watcher three_spawned) = true /\
  status (stop (in_order mixed_fate) (watcher three_spawned)) = Returns /\
  tasks (final (stop (in_order mixed_fate) (watcher three_spawned))) = [] /\
  is_running (final (stop (in_order mixed_fate) (watcher three_spawned)))
    = false /\
  status (start (Value := Z) (Error := string)
            (final (stop (in_order mixed_fate) (watcher three_spawned))))
    = Returns.
Proof.
  split; [reflexivity|]. split; [reflexivity|].
  apply stop_returns_to_idle; reflexivity.
Defined.

Lemma cycle_accounts_for_every_handle_witness :
  register_count
    (calls (stop (in_order mixed_fate)
              (watcher (run (Value := Z) (Error := string)
                            (CallStart :: map CallSpawn ["a"; "b"; "c"])
                            fresh)))) +
  cancel_count
    (calls (stop (in_order mixed_fate)
              (watcher (run (Value := Z) (Error := string)
                            (CallStart :: map CallSpawn ["a"; "b"; "c"])
                            fresh))))
  = 3.
Proof.
  apply (cycle_accounts_for_every_handle fresh ["a"; "b"; "c"]
           (in_order mixed_fate));
    [exact fresh_reachable | reflexivity | reflexivity].
Defined.

(** C4 on the code: [stop] right after [start] raises the error of
    [asyncio.wait] and the watcher stays running. *)
Theorem stop_without_tasks_fails :
  is_running (watcher just_started) = true /\
  tasks (watcher just_started) = [] /\
  stop (in_order mixed_fate) (watcher just_started) =
    {| status := Raises (ValueError "Set of Tasks/Futures is empty.");
       final := watcher just_started; calls := [] |} /\
  is_running (final (stop (in_order mixed_fate) (watcher just_started)))
    = true.
Proof.
  repeat split.
Qed.

(** C5 fails on a stale [tasks]: [start] succeeds and the stale task is
    still there. *)
Lemma start_keeps_stale_tasks :
  is_running stale = false /\
  status (start (Value := Z) (Error := string) stale) = Returns /\
  tasks (final (start (Value := Z) (Error := string) stale)) = [4] /\
  tasks (final (start (Value := Z) (Error := string) stale)) <> [].
Proof.
  repeat split. discriminate.
Qed.

Lemma start_enters_running_keeps_tasks_witness :
  is_running (watcher fresh) = false /\
  status (start (Value := Z) (Error := string) (watcher fresh)) = Returns /\
  is_running (final (start (Value := Z) (Error := string) (watcher fresh)))
    = true /\
  tasks (final (start (Value := Z) (Error := string) (watcher fresh)))
    = tasks (watcher fresh) /\
  tasks (final (start (Value := Z) (Error := string) (watcher fresh))) = [].
Proof.
  split; [reflexivity|].
  destruct (start_enters_running_keeps_tasks
              (Value := Z) (Error := string) (Coroutine := string)
              (watcher fresh) eq_refl)
    as (Hret & Hrun & Hsame & Hempty).
  split; [exact Hret|]. split; [exact Hrun|]. split; [exact Hsame|].
  apply (Hempty []). exact fresh_reachable.
Defined.

Lemma idle_rejects_stop_and_spawn_witness :
  stop (in_order mixed_fate) (watcher fresh) =
    {| status := NotRunning; final := watcher fresh; calls := [] |} /\
  start_and_watch (Value := Z) (Error := string) "a" fresh =
    {| status := NotRunning; final := fresh; calls := [] |}.
Proof.
  apply (idle_rejects_stop_and_spawn fresh (in_order mixed_fate) "a").
  reflexivity.
Defined.

Lemma running_rejects_start_witness :
  start (Value := Z) (Error := string) (watcher three_spawned) =
    {| status := AlreadyRunning; final := watcher three_spawned;
       calls := [] |}.
Proof.
  apply (running_rejects_start (watcher three_spawned)). reflexivity.
Defined.

(** C3 on the code: a cycle of [start], three [start_and_watch] calls and
    [stop], in which task 0 ended cancelled, task 1 returned and task 2 is
    still running when the wait is over.  [stop] registers task 1, raises the
    cancellation error at task 0 and never reaches its cancellation loop: one
    call for three handles. *)
Theorem cancelled_task_breaks_the_count :
  three_spawned
    = run (Value := Z) (Error := string)
          (CallStart :: map CallSpawn ["a"; "b"; "c"]) fresh /\
  tasks (watcher three_spawned) = [0; 1; 2] /\
  stop (reversed first_cancelled) (watcher three_spawned)
    = {| status := Raises CancelledError;
         final := watcher three_spawned;
         calls := [RegisterValue 1 3%Z] |} /\
  register_count
    (calls (stop (reversed first_cancelled) (watcher three_spawned))) +
  cancel_count
    (calls (stop (reversed first_cancelled) (watcher three_spawned))) = 1 /\
  register_count
    (calls (stop (in_order first_cancelled) (watcher three_spawned))) +
  cancel_count
    (calls (stop (in_order first_cancelled) (watcher three_spawned))) = 0.
Proof.
  repeat split.
Qed.

(** C8 on the code: after [start] and one [start_and_watch] whose task ended
    cancelled, [stop] raises the cancellation error and returns to its caller
    with the handle still in [tasks] and the watcher still running. *)
Theorem stop_failure_keeps_tasks :
  reachable (Value := Z) (Error := string) one_spawned /\
  status (stop (in_order all_cancelled) (watcher one_spawned))
    = Raises CancelledError /\
  tasks (final (stop (in_order all_cancelled) (watcher one_spawned))) = [0] /\
  tasks (final (stop (in_order all_cancelled) (watcher one_spawned))) <> [] /\
  is_running (final (stop (in_order all_cancelled) (watcher one_spawned)))
    = true.
Proof.
  split.
  - exists 1, (Some 5), [], [CallStart; CallSpawn "a"]. reflexivity.
  - repeat split. discriminate.
Qed.

Lemma tasks_only_while_running_witness :
  tasks (watcher three_spawned) <> [] /\
  is_running (watcher three_spawned) = true.
Proof.
  split; [simpl; discriminate|].
  apply (tasks_only_while_running (Value := Z) (Error := string)
           three_spawned three_spawned_reachable).
  simpl. discriminate.
Defined.

Lemma stop_registers_before_cancelling_witness :
  status (stop (in_order mixed_fate) (watcher three_spawned)) = Returns /\
  nth_error (calls (stop (in_order mixed_fate) (watcher three_spawned))) 1
    = Some (RegisterError 1 "boom") /\
  nth_error (calls (stop (in_order mixed_fate) (watcher three_spawned))) 2
    = Some (CancelRequest 2) /\
  1 < 2.
Proof.
  split; [reflexivity|]. split; [reflexivity|]. split; [reflexivity|].
  apply (stop_registers_before_cancelling
           (in_order mixed_fate) (watcher three_spawned) 1 2
           (RegisterError 1 "boom") (CancelRequest 2)); reflexivity.
Defined.

(** * Further properties of the watcher *)

Section Further.

Context {Value Error Coroutine Registrator Duration : Type}.

Local Abbreviation Scheduling := (@Scheduling Value Error).
Local Abbreviation StudentWatcher := (@StudentWatcher Registrator Duration).
Local Abbreviation Sys := (@Sys Coroutine Registrator Duration).
Local Abbreviation Event := (@Event Value Error).
Local Abbreviation Call := (@Call Value Error Coroutine).
Local Abbreviation step := (@step Value Error Coroutine Registrator Duration).
Local Abbreviation run := (@run Value Error Coroutine Registrator Duration).
Local Abbreviation reachable :=
  (@reachable Value Error Coroutine Registrator Duration).
Local Abbreviation CallStart := (@CallStart Value Error Coroutine).
Local Abbreviation CallSpawn := (@CallSpawn Value Error Coroutine).
Local Abbreviation statuses :=
  (@statuses Value Error Coroutine Registrator Duration).
Local Abbreviation refused := (@refused Value Error Coroutine).

Implicit Types (w : Scheduling) (s : StudentWatcher) (t : Task).

(** ** The cases of [asyncio.wait] *)

Lemma cancelled_is_done w t : fate w t = Cancelled -> task_done w t = true.
Proof. unfold task_done. now intros ->. Qed.

Lemma unfinished_iff_not_done w t :
  fate w t = Unfinished <-> task_done w t = false.
Proof. unfold task_done. destruct (fate w t); split; congruence. Qed.

Lemma no_pending_iff w (fs : list Task) :
  filter (fun t => negb (task_done w t)) (nodup Nat.eq_dec fs) = [] <->
  (forall t, In t fs -> fate w t <> Unfinished).
Proof.
  split.
  - intros H t Hin Hun. apply unfinished_iff_not_done in Hun.
    assert (Hf : In t (filter (fun t => negb (task_done w t))
                          (nodup Nat.eq_dec fs))).
    { apply filter_In. rewrite nodup_In, Hun. now split. }
    rewrite H in Hf. destruct Hf.
  - intros H.
    destruct (filter (fun t => negb (task_done w t)) (nodup Nat.eq_dec fs))
      as [|t rest] eqn:Hf; [reflexivity|].
    assert (Hin : In t (t :: rest)) by now left.
    rewrite <- Hf in Hin. apply filter_In in Hin as [Hin Hnd].
    rewrite nodup_In in Hin. apply negb_true_iff in Hnd.
    apply unfinished_iff_not_done in Hnd. now elim (H t Hin).
Qed.

Lemma wait_cases w (fs : list Task) (to : option Duration) :
  (fs = [] /\
   wait w fs to = WaitRaises (ValueError "Set of Tasks/Futures is empty."))
  \/
  (fs <> [] /\ to = None /\
   (exists t, In t fs /\ fate w t = Unfinished) /\
   wait w fs to = WaitBlocks)
  \/
  (fs <> [] /\
   (to = None -> forall t, In t fs -> fate w t <> Unfinished) /\
   exists done pending, wait w fs to = WaitReturns done pending).
Proof.
  destruct fs as [|t0 rest]; [left; now split|]. right.
  unfold wait.
  set (fs := t0 :: rest).
  destruct (filter (fun t => negb (task_done w t)) (nodup Nat.eq_dec fs))
    as [|t pend] eqn:Hp.
  - right. split; [discriminate|]. split.
    + intros _. now apply no_pending_iff.
    + destruct to; eauto.
  - assert (Hin : In t (t :: pend)) by now left.
    rewrite <- Hp in Hin. apply filter_In in Hin as [Hin Hnd].
    rewrite nodup_In in Hin. apply negb_true_iff in Hnd.
    apply unfinished_iff_not_done in Hnd.
    destruct to as [d|].
    + right. split; [discriminate|]. split; [discriminate|]. eauto.
    + left. split; [discriminate|]. split; [reflexivity|]. split; eauto.
Qed.

(** ** The cases of the loop over [done] *)

Lemma register_task_cases w t :
  match fate w t with
  | Returned v => register_task w t = inr (RegisterValue t v)
  | Failed e => register_task w t = inr (RegisterError t e)
  | Cancelled => register_task w t = inl CancelledError
  | Unfinished =>
      register_task w t = inl (InvalidStateError "Exception is not set.")
  end.
Proof.
  unfold register_task, task_exception, task_result.
  destruct (fate w t); reflexivity.
Qed.

Lemma register_all_calls w done :
  Forall (fun ev => is_register ev = true /\ truthful w ev /\
                    In (event_task ev) done)
         (fst (register_all w done)).
Proof.
  induction done as [|t rest IH]; simpl; [constructor|].
  pose proof (register_task_cases w t) as Ht.
  destruct (register_task w t) as [f|ev]; [constructor|].
  destruct (register_all w rest) as [evs r]. simpl in *.
  constructor.
  - destruct (fate w t) eqn:Ef; inversion Ht; subst; simpl; auto.
  - eapply Forall_impl; [|exact IH]. simpl. intros ev' (? & ? & ?). auto.
Qed.

Lemma register_all_cases w done :
  Forall (fun t => task_done w t = true) done ->
  ((forall t, In t done -> fate w t <> Cancelled) /\
   register_all w done = (registrations w done, None))
  \/
  ((exists t, In t done /\ fate w t = Cancelled) /\
   snd (register_all w done) = Some CancelledError).
Proof.
  induction 1 as [|t rest Ht _ IH]; [left; split; [intros ? []|reflexivity]|].
  simpl. unfold registrations. simpl.
  pose proof (register_task_cases w t) as Hc.
  unfold task_done in Ht.
  destruct (fate w t) eqn:Ef; try discriminate; rewrite Hc.
  - destruct IH as [[Hno Hall]|[(t' & Hin & Hcan) Hsome]].
    + left. split; [|now rewrite Hall].
      intros t' [<-|Hin]; [congruence | now apply Hno].
    + right. split; [exists t'; split; [now right|assumption]|].
      destruct (register_all w rest). exact Hsome.
  - destruct IH as [[Hno Hall]|[(t' & Hin & Hcan) Hsome]].
    + left. split; [|now rewrite Hall].
      intros t' [<-|Hin]; [congruence | now apply Hno].
    + right. split; [exists t'; split; [now right|assumption]|].
      destruct (register_all w rest). exact Hsome.
  - right. split; [|reflexivity]. exists t. split; [now left|assumption].
Qed.

Lemma registrations_length w done :
  (forall t, In t done -> fate w t <> Cancelled) ->
  Forall (fun t => task_done w t = true) done ->
  length (registrations w done) = length done.
Proof.
  unfold registrations.
  induction done as [|t rest IH]; intros Hno Hd; [reflexivity|].
  inversion Hd as [|? ? Ht Hrest]; subst. simpl.
  pose proof (register_task_cases w t) as Hc.
  assert (Hnc : fate w t <> Cancelled) by (apply Hno; now left).
  unfold task_done in Ht.
  destruct (fate w t); try discriminate; try congruence; rewrite Hc; simpl;
    f_equal; apply IH; auto; intros t' Hin; apply Hno; now right.
Qed.

Lemma registrations_ext w1 w2 (ts : list Task) :
  (forall t, fate w1 t = fate w2 t) ->
  registrations w1 ts = registrations w2 ts.
Proof.
  intros Hf. unfold registrations. apply flat_map_ext. intros t.
  unfold register_task, task_exception, task_result. now rewrite Hf.
Qed.

(** ** Every way [stop] can end *)

Lemma stop_cases w s :
  (is_running s = false /\
   stop w s = {| status := NotRunning; final := s; calls := [] |})
  \/
  (is_running s = true /\ tasks s = [] /\
   stop w s =
     {| status := Raises (ValueError "Set of Tasks/Futures is empty.");
        final := s; calls := [] |})
  \/
  (is_running s = true /\ timeout s = None /\
   (exists t, In t (tasks s) /\ fate w t = Unfinished) /\
   stop w s = {| status := Blocks; final := s; calls := [] |})
  \/
  (is_running s = true /\
   (timeout s = None -> forall t, In t (tasks s) -> fate w t <> Unfinished) /\
   (exists t, In t (tasks s) /\ fate w t = Cancelled) /\
   exists done pending,
     wait w (tasks s) (timeout s) = WaitReturns done pending /\
     stop w s = {| status := Raises CancelledError; final := s;
                   calls := fst (register_all w done) |})
  \/
  (is_running s = true /\ tasks s <> [] /\
   (timeout s = None -> forall t, In t (tasks s) -> fate w t <> Unfinished) /\
   (forall t, In t (tasks s) -> fate w t <> Cancelled) /\
   exists done pending,
     wait w (tasks s) (timeout s) = WaitReturns done pending /\
     stop w s = {| status := Returns; final := init (registrator s) (timeout s);
                   calls := registrations w done ++ map CancelRequest pending |}).
Proof.
  unfold stop. destruct (is_running s); simpl; [|left; now split]. right.
  destruct (wait_cases w (tasks s) (timeout s))
    as [[He ->]|[(Hne & Hto & Hun & ->)|(Hne & Hto & d & p & Hw)]].
  - left. now repeat split.
  - right. left. now repeat split.
  - right. right. rewrite Hw.
    assert (Hd : Forall (fun t => task_done w t = true) d).
    { apply Forall_forall. intros t Ht.
      now apply (wait_done_iff _ _ _ _ _ t Hw) in Ht. }
    destruct (register_all_cases w d Hd)
      as [[Hno Hall]|[(t & Hin & Hcan) Hsome]].
    + right. split; [reflexivity|]. split; [assumption|].
      split; [assumption|]. split.
      * intros t Hin Hcan. apply (Hno t); [|assumption].
        apply (wait_done_iff _ _ _ _ _ t Hw). split; [assumption|].
        now apply cancelled_is_done.
      * exists d, p. split; [reflexivity|]. now rewrite Hall.
    + left. split; [reflexivity|]. split; [assumption|]. split.
      * exists t. split; [|assumption].
        now apply (wait_done_iff _ _ _ _ _ t Hw) in Hin.
      * exists d, p. split; [reflexivity|].
        destruct (register_all w d) as [evs r]. simpl in *. now subst.
Qed.

Ltac stop_by_cases w s :=
  destruct (stop_cases w s)
    as [[Hidle Hstop]
       |[(Hrun & Hempty & Hstop)
        |[(Hrun & Hnone & (tu & Hinu & Hun) & Hstop)
         |[(Hrun & Hfin & (tc & Hinc & Hcan) & done & pending & Hwait & Hstop)
          |(Hrun & Hne & Hfin & Hnocan & done & pending & Hwait & Hstop)]]]];
  rewrite Hstop; simpl.

(** ** Calls in a row *)

Lemma spawn_all_tasks (coros : list Coroutine) (s : Sys) :
  is_running (watcher s) = true ->
  run (map CallSpawn coros) s =
    {| watcher :=
         {| registrator := registrator (watcher s);
            timeout := timeout (watcher s);
            is_running := true;
            tasks := tasks (watcher s)
                     ++ seq (length (loop s)) (length coros) |};
       loop := loop s ++ coros |}.
Proof.
  revert s. induction coros as [|c rest IH]; intros s Hr; simpl.
  - rewrite !app_nil_r. destruct s as [[r to run ts] lp]. simpl in *.
    now subst.
  - unfold start_and_watch at 1. rewrite Hr. simpl.
    rewrite IH by reflexivity. simpl.
    rewrite length_app, <- !app_assoc. simpl.
    now rewrite Nat.add_1_r.
Qed.

Lemma held_cancelled_step t (c : Call) (s : Sys) :
  is_running (watcher s) = true ->
  In t (tasks (watcher s)) ->
  finds_cancelled t c ->
  is_running (watcher (final (step c s))) = true /\
  In t (tasks (watcher (final (step c s)))).
Proof.
  intros Hr Hin Hc. destruct c as [|coro|w]; simpl.
  - unfold start. rewrite Hr. simpl. now split.
  - unfold start_and_watch. rewrite Hr. simpl. split; [reflexivity|].
    apply in_or_app. now left.
  - simpl in Hc. stop_by_cases w (watcher s); try now split.
    now elim (Hnocan t Hin).
Qed.

(** ** How [stop] ends *)

(** X3: when [stop] returns, the watcher was running and held at least one
    task, no task it held ended cancelled, and, if it has no timeout, every
    task it held has finished. *)
Theorem stop_returns_only_if w s :
  status (stop w s) = Returns ->
  is_running s = true /\ tasks s <> [] /\
  (forall t, In t (tasks s) -> fate w t <> Cancelled) /\
  (timeout s = None -> forall t, In t (tasks s) -> fate w t <> Unfinished).
Proof.
  stop_by_cases w s; try discriminate. intros _. auto.
Qed.

(** X5: a [stop] that does not return normally leaves the watcher exactly as
    it was and requests no cancellation: the tasks it holds keep running. *)
Theorem failed_stop_changes_nothing w s :
  status (stop w s) <> Returns ->
  final (stop w s) = s /\ cancel_count (calls (stop w s)) = 0.
Proof.
  stop_by_cases w s; intros H; try (now split); try (now elim H).
  split; [reflexivity|].
  apply count_registered.
  eapply Forall_impl; [|apply register_all_calls]. simpl. tauto.
Qed.

(** X6: a watcher constructed without a timeout never cancels anything:
    whatever way [stop] ends, its trace has no cancellation request. *)
Theorem stop_without_timeout_cancels_nothing w s :
  timeout s = None ->
  cancel_count (calls (stop w s)) = 0.
Proof.
  intros Hto. stop_by_cases w s; try reflexivity.
  - apply count_registered.
    eapply Forall_impl; [|apply register_all_calls]. simpl. tauto.
  - apply wait_returns in Hwait as (_ & _ & Hp).
    rewrite (proj2 (no_pending_iff w (tasks s)) (Hfin Hto)) in Hp.
    apply Permutation_sym, Permutation_nil in Hp. subst pending. simpl. rewrite app_nil_r.
    assert (Hd : Forall (fun ev : Event => is_register ev = true)
                        (registrations w done)).
    { unfold registrations. apply Forall_forall. intros ev Hev.
      apply in_flat_map in Hev as (t & _ & Hev).
      pose proof (register_task_cases w t) as Hc.
      destruct (fate w t); rewrite Hc in Hev; simpl in Hev;
        try contradiction; destruct Hev as [<-|Hev]; try contradiction;
        reflexivity. }
    now apply count_registered.
Qed.

(** X7: every call [stop] makes, whatever way it ends, is about a task the
    watcher holds and tells the truth about it: a registered value is the
    value the task returned, a registered error is the exception it raised,
    and a cancelled task had not finished. *)
Theorem stop_calls_are_truthful w s (ev : Event) :
  In ev (calls (stop w s)) ->
  In (event_task ev) (tasks s) /\ truthful w ev.
Proof.
  stop_by_cases w s; try (intros []).
  - intros Hev.
    pose proof (register_all_calls w done) as Hc.
    rewrite Forall_forall in Hc. destruct (Hc ev Hev) as (_ & Ht & Hin).
    split; [|assumption].
    now apply (wait_done_iff _ _ _ _ _ (event_task ev) Hwait) in Hin.
  - intros Hev. apply in_app_or in Hev as [Hev|Hev].
    + unfold registrations in Hev. apply in_flat_map in Hev as (t & Hin & Hev).
      apply (wait_done_iff _ _ _ _ _ t Hwait) in Hin as [Hin _].
      pose proof (register_task_cases w t) as Hc.
      destruct (fate w t) eqn:Ef; rewrite Hc in Hev; simpl in Hev;
        try contradiction; destruct Hev as [<-|Hev]; try contradiction;
        simpl; auto.
    + apply in_map_iff in Hev as (t & <- & Hin).
      apply (wait_done_iff _ _ _ _ _ t Hwait) in Hin as [Hin Hnd].
      simpl. split; [assumption|]. now apply unfinished_iff_not_done.
Qed.

(** X8: a [stop] that returns leaves the watcher as its constructor made it,
    with the same registrator and timeout. *)
Theorem successful_stop_resets_to_init w s :
  status (stop w s) = Returns ->
  final (stop w s) = init (registrator s) (timeout s).
Proof.
  stop_by_cases w s; try discriminate. reflexivity.
Qed.

(** X11: the iteration order of the sets changes neither whether [stop]
    returns nor which calls it makes: under two schedulings that agree on the
    state of every task, the traces of a returning [stop] are permutations of
    each other. *)
Theorem stop_calls_order_independent w1 w2 s :
  (forall t, fate w1 t = fate w2 t) ->
  status (stop w1 s) = Returns ->
  status (stop w2 s) = Returns /\
  final (stop w2 s) = final (stop w1 s) /\
  Permutation (calls (stop w1 s)) (calls (stop w2 s)).
Proof.
  intros Hf H1.
  assert (Hdone : forall t, task_done w1 t = task_done w2 t)
    by (intros t; unfold task_done; now rewrite Hf).
  assert (H2 : status (stop w2 s) = Returns).
  { revert H1.
    destruct (stop_cases w1 s)
      as [[_ ->]|[(_ & _ & ->)|[(_ & _ & _ & ->)|[(_ & _ & _ & ? & ? & _ & ->)
         |(Hr1 & Hne1 & Hfin1 & Hnc1 & _)]]]]; simpl; try discriminate.
    intros _. stop_by_cases w2 s; try reflexivity.
    - congruence.
    - now elim Hne1.
    - rewrite <- Hf in Hun. now elim (Hfin1 Hnone tu Hinu).
    - rewrite <- Hf in Hcan. now elim (Hnc1 tc Hinc). }
  split; [assumption|].
  revert H1 H2.
  destruct (stop_cases w1 s)
    as [[_ ->]|[(_ & _ & ->)|[(_ & _ & _ & ->)|[(_ & _ & _ & ? & ? & _ & ->)
       |(_ & _ & _ & _ & d1 & p1 & Hw1 & ->)]]]]; simpl; try discriminate.
  destruct (stop_cases w2 s)
    as [[_ ->]|[(_ & _ & ->)|[(_ & _ & _ & ->)|[(_ & _ & _ & ? & ? & _ & ->)
       |(_ & _ & _ & _ & d2 & p2 & Hw2 & ->)]]]]; simpl; try discriminate.
  intros _ _. split; [reflexivity|].
  apply wait_returns in Hw1 as (_ & Hd1 & Hp1).
  apply wait_returns in Hw2 as (_ & Hd2 & Hp2).
  rewrite (filter_ext _ _ Hdone) in Hd1.
  rewrite (filter_ext (fun t => negb (task_done w1 t))
                      (fun t => negb (task_done w2 t))) in Hp1
    by (intros t; now rewrite Hdone).
  apply Permutation_app.
  - rewrite (registrations_ext w1 w2 d1 Hf). unfold registrations.
    apply Permutation_flat_map.
    now rewrite Hd1, Hd2.
  - apply Permutation_map. now rewrite Hp1, Hp2.
Qed.

(** X12: a finished task that ended cancelled cuts the registration loop
    short: the tasks before it in iteration order are registered, one call
    each, the tasks after it are not, and the loop raises the cancellation
    error. *)
Theorem register_all_stops_at_cancelled w (before after : list Task) t :
  Forall (fun t' => task_done w t' = true /\ fate w t' <> Cancelled) before ->
  fate w t = Cancelled ->
  register_all w (before ++ t :: after)
    = (registrations w before, Some CancelledError) /\
  length (registrations w before) = length before.
Proof.
  intros Hb Hcan. split.
  - induction Hb as [|t' rest (Hd & Hnc) _ IH]; simpl.
    + pose proof (register_task_cases w t) as Hc. rewrite Hcan in Hc.
      now rewrite Hc.
    + unfold registrations. simpl.
      pose proof (register_task_cases w t') as Hc. unfold task_done in Hd.
      destruct (fate w t'); try discriminate; try congruence;
        rewrite Hc, IH; reflexivity.
  - apply registrations_length.
    + intros t' Hin. rewrite Forall_forall in Hb. now apply Hb.
    + eapply Forall_impl; [|exact Hb]. simpl. tauto.
Qed.

(** ** Sequences of calls *)

(** X9: [start] on an idle watcher followed by [start_and_watch] calls leaves
    the watcher running, holding after the tasks it already had one new task
    per call, in call order, each wrapping the coroutine of its call. *)
Theorem spawned_tasks_in_creation_order (s0 : Sys) (coros : list Coroutine) :
  is_running (watcher s0) = false ->
  is_running (watcher (run (CallStart :: map CallSpawn coros) s0)) = true /\
  tasks (watcher (run (CallStart :: map CallSpawn coros) s0))
    = tasks (watcher s0) ++ seq (length (loop s0)) (length coros) /\
  loop (run (CallStart :: map CallSpawn coros) s0) = loop s0 ++ coros /\
  (forall i c, nth_error coros i = Some c ->
     nth_error (loop (run (CallStart :: map CallSpawn coros) s0))
               (length (loop s0) + i) = Some c).
Proof.
  intros Hidle. simpl. unfold start. rewrite Hidle. simpl.
  rewrite spawn_all_tasks by reflexivity. simpl.
  repeat split. intros i c Hi.
  rewrite nth_error_app2 by lia.
  now replace (length (loop s0) + i - length (loop s0)) with i by lia.
Qed.

(** What [start_and_watch] adds to the event loop: after any calls, the loop
    is the one the watcher started in followed by coroutines of
    [start_and_watch] calls, and the held tasks are among these. *)
Lemma run_spawned (l0 : list Coroutine) (P : Coroutine -> Prop)
      (cs : list Call) (s : Sys) :
  (forall c, In (CallSpawn c) cs -> P c) ->
  (exists sp, loop s = l0 ++ sp /\ Forall P sp) ->
  Forall (fun t => length l0 <= t) (tasks (watcher s)) ->
  (exists sp, loop (run cs s) = l0 ++ sp /\ Forall P sp) /\
  Forall (fun t => length l0 <= t) (tasks (watcher (run cs s))).
Proof.
  revert s. induction cs as [|c rest IH]; intros s HP Hl Ht; simpl;
    [now split|].
  assert (HP' : forall c', In (CallSpawn c') rest -> P c')
    by (intros c' Hc'; apply HP; now right).
  apply IH; [exact HP'| |]; destruct c as [|coro|w]; simpl.
  - exact Hl.
  - unfold start_and_watch. destruct (is_running (watcher s)); simpl;
      [|exact Hl].
    destruct Hl as (sp & Hsp & Hall). exists (sp ++ [coro]).
    rewrite Hsp, app_assoc. split; [reflexivity|].
    apply Forall_app. split; [assumption|]. constructor; [|constructor].
    apply HP. now left.
  - exact Hl.
  - unfold start. destruct (is_running (watcher s)); exact Ht.
  - unfold start_and_watch. destruct (is_running (watcher s)); simpl;
      [|exact Ht].
    apply Forall_app. split; [assumption|]. constructor; [|constructor].
    destruct Hl as (sp & -> & _). rewrite length_app. lia.
  - destruct (status (stop w (watcher s))) eqn:Es.
    + apply stop_returns in Es as (_ & d & p & evs & _ & _ & -> & _).
      constructor.
    + rewrite stop_raises_or_blocks by (rewrite Es; discriminate). exact Ht.
    + rewrite stop_raises_or_blocks by (rewrite Es; discriminate). exact Ht.
Qed.

(** X10: in every state reached from a new watcher the watcher holds no task
    twice, and every task it holds was created by one of the
    [start_and_watch] calls made: it is not a task the loop held before the
    watcher was constructed, and it wraps the coroutine of such a call. *)
Theorem reachable_tasks_distinct
        (r : Registrator) (to : option Duration) (l : list Coroutine)
        (cs : list Call) :
  NoDup (tasks (watcher (run cs (initial r to l)))) /\
  (forall t, In t (tasks (watcher (run cs (initial r to l)))) ->
     length l <= t /\
     exists c, In (CallSpawn c) cs /\
               nth_error (loop (run cs (initial r to l))) t = Some c).
Proof.
  assert (Hc : consistent (run cs (initial r to l))).
  { apply (reachable_consistent (Value := Value) (Error := Error)).
    now exists r, to, l, cs. }
  destruct Hc as (_ & Hnd & Hlt).
  destruct (run_spawned l (fun c => In (CallSpawn c) cs) cs (initial r to l))
    as [(sp & Hsp & Hall) Hge].
  - auto.
  - exists []. simpl. rewrite app_nil_r. now split.
  - constructor.
  - split; [assumption|]. intros t Hin.
    rewrite Forall_forall in Hlt, Hge, Hall.
    specialize (Hlt t Hin). specialize (Hge t Hin). simpl in Hlt, Hge.
    split; [assumption|].
    rewrite Hsp in Hlt |- *. rewrite length_app in Hlt.
    rewrite nth_error_app2 by assumption.
    destruct (nth_error sp (t - length l)) as [c|] eqn:Hn.
    + exists c. split; [|reflexivity]. apply Hall. eapply nth_error_In, Hn.
    + apply nth_error_None in Hn. lia.
Qed.

Lemma held_cancelled_refused t (c : Call) (s : Sys) :
  is_running (watcher s) = true ->
  In t (tasks (watcher s)) ->
  finds_cancelled t c ->
  refused c (status (step c s)).
Proof.
  intros Hr Hin Hc. destruct c as [|coro|w]; simpl.
  - unfold start. now rewrite Hr.
  - unfold start_and_watch. now rewrite Hr.
  - simpl in Hc. stop_by_cases w (watcher s); try discriminate.
    now elim (Hnocan t Hin).
Qed.

(** X13: once a running watcher holds a task that ended cancelled, no
    sequence of calls gets it out.  As long as [stop] keeps finding that task
    cancelled, every [stop] of the sequence fails or stays suspended, every
    [start] is refused as already running, and at the end the watcher is
    still running and still holds the task. *)
Theorem cancelled_task_wedges_watcher t (cs : list Call) (s : Sys) :
  is_running (watcher s) = true ->
  In t (tasks (watcher s)) ->
  Forall (finds_cancelled t) cs ->
  Forall2 refused cs (statuses cs s) /\
  is_running (watcher (run cs s)) = true /\
  In t (tasks (watcher (run cs s))).
Proof.
  intros Hr Hin Hcs. revert s Hr Hin.
  induction Hcs as [|c rest Hc _ IH]; intros s Hr Hin; simpl.
  - split; [constructor | now split].
  - destruct (held_cancelled_step t c s Hr Hin Hc) as [Hr' Hin'].
    destruct (IH _ Hr' Hin') as (Hall & Hrun & Hheld).
    split; [|now split].
    constructor; [|exact Hall].
    exact (held_cancelled_refused t c s Hr Hin Hc).
Qed.

End Further.

(** * The further properties on concrete runs *)

Lemma stop_returns_only_if_witness :
  status (stop (in_order mixed_fate) (watcher three_spawned)) = Returns /\
  is_running (watcher three_spawned) = true /\
  tasks (watcher three_spawned) <> [] /\
  (forall t, In t (tasks (watcher three_spawned)) ->
             mixed_fate t <> Cancelled) /\
  (timeout (watcher three_spawned) = None ->
   forall t, In t (tasks (watcher three_spawned)) ->
             mixed_fate t <> Unfinished).
Proof.
  split; [reflexivity|].
  apply (stop_returns_only_if (in_order mixed_fate) (watcher three_spawned)).
  reflexivity.
Defined.

Lemma failed_stop_changes_nothing_witness :
  calls (stop (reversed first_cancelled) (watcher three_spawned))
    = [RegisterValue 1 3%Z] /\
  final (stop (reversed first_cancelled) (watcher three_spawned))
    = watcher three_spawned /\
  cancel_count (calls (stop (reversed first_cancelled) (watcher three_spawned)))
    = 0.
Proof.
  split; [reflexivity|].
  apply (failed_stop_changes_nothing
           (reversed first_cancelled) (watcher three_spawned)).
  simpl. discriminate.
Defined.

Lemma stop_without_timeout_cancels_nothing_witness :
  status (stop (in_order all_finished) (watcher three_spawned_no_timeout))
    = Returns /\
  cancel_count
    (calls (stop (in_order all_finished) (watcher three_spawned_no_timeout)))
    = 0.
Proof.
  split; [reflexivity|].
  apply (stop_without_timeout_cancels_nothing
           (in_order all_finished) (watcher three_spawned_no_timeout)).
  reflexivity.
Defined.

Lemma stop_calls_are_truthful_witness :
  In 2 (tasks (watcher three_spawned)) /\
  truthful (in_order mixed_fate) (CancelRequest 2).
Proof.
  apply (stop_calls_are_truthful
           (in_order mixed_fate) (watcher three_spawned) (CancelRequest 2)).
  simpl. auto.
Defined.

Lemma successful_stop_resets_to_init_witness :
  final (stop (in_order mixed_fate) (watcher three_spawned))
    = init 1 (Some 5).
Proof.
  apply (successful_stop_resets_to_init
           (in_order mixed_fate) (watcher three_spawned)).
  reflexivity.
Defined.

Lemma spawned_tasks_in_creation_order_witness :
  tasks (watcher (run (Value := Z) (Error := string)
                      (CallStart :: map CallSpawn ["a"; "b"; "c"]) fresh))
    = [0; 1; 2] /\
  loop (run (Value := Z) (Error := string)
            (CallStart :: map CallSpawn ["a"; "b"; "c"]) fresh)
    = ["a"; "b"; "c"].
Proof.
  destruct (spawned_tasks_in_creation_order
              (Value := Z) (Error := string) fresh ["a"; "b"; "c"] eq_refl)
    as (_ & Ht & Hl & _).
  split; [exact Ht | exact Hl].
Defined.

Lemma stop_calls_order_independent_witness :
  status (stop (reversed mixed_fate) (watcher three_spawned)) = Returns /\
  final (stop (reversed mixed_fate) (watcher three_spawned))
    = final (stop (in_order mixed_fate) (watcher three_spawned)) /\
  Permutation (calls (stop (in_order mixed_fate) (watcher three_spawned)))
              (calls (stop (reversed mixed_fate) (watcher three_spawned))).
Proof.
  apply (stop_calls_order_independent
           (in_order mixed_fate) (reversed mixed_fate)
           (watcher three_spawned)).
  - intros t. reflexivity.
  - reflexivity.
Defined.

Lemma register_all_stops_at_cancelled_witness :
  register_all (in_order first_cancelled) ([1] ++ 0 :: [2])
    = ([RegisterValue 1 3%Z], Some CancelledError) /\
  length (registrations (in_order first_cancelled) [1]) = 1.
Proof.
  apply (register_all_stops_at_cancelled
           (in_order first_cancelled) [1] [2] 0).
  - constructor; [|constructor]. split; [reflexivity|]. simpl. discriminate.
  - reflexivity.
Defined.

Lemma cancelled_task_wedges_watcher_witness :
  statuses [CallStop (in_order all_cancelled); CallStart;
            CallSpawn "b"; CallStop (reversed all_cancelled)]
           one_spawned
    = [Raises CancelledError; AlreadyRunning; Returns;
       Raises CancelledError] /\
  Forall2 refused
    [CallStop (in_order all_cancelled); CallStart;
     CallSpawn "b"; CallStop (reversed all_cancelled)]
    (statuses [CallStop (in_order all_cancelled); CallStart;
               CallSpawn "b"; CallStop (reversed all_cancelled)]
              one_spawned) /\
  is_running
    (watcher (run [CallStop (in_order all_cancelled); CallStart;
                   CallSpawn "b"; CallStop (reversed all_cancelled)]
                  one_spawned)) = true /\
  In 0 (tasks
          (watcher (run [CallStop (in_order all_cancelled); CallStart;
                         CallSpawn "b"; CallStop (reversed all_cancelled)]
                        one_spawned))).
Proof.
  split; [reflexivity|].
  apply (cancelled_task_wedges_watcher 0
           [CallStop (in_order all_cancelled); CallStart;
            CallSpawn "b"; CallStop (reversed all_cancelled)]
           one_spawned).
  - reflexivity.
  - simpl. auto.
  - repeat constructor.
Defined.
